(* Verification of the model topology of image_denoising:
   src/models/classifying_resnet.py (BasicBlock, ClassifyingResNet) and
   src/models/class_guided_unet.py (ClassGuidedUNet).

   Modules are modelled as the lists of layers their nn.Sequential
   containers hold; forward passes are modelled at the level of tensor
   shapes (option = the runtime raises a shape error) and, where a claim is
   about values, over explicit tensor data. *)

From Stdlib Require Import List Arith Lia ZArith QArith Bool.
Import ListNotations.
Open Scope nat_scope.

(* ------------------------------------------------------------------ *)
(** * Layers and nn.Sequential *)

(** The torch.nn layers the two files use. *)
Inductive layer : Type :=
| Conv2d (in_channels out_channels kernel_size stride padding : nat) (bias : bool)
| BatchNorm2d (num_features : nat)
| MaxPool2d (kernel_size stride padding : nat)
| ReLU.

(** nn.Sequential over a list of layers: the container keeps the layers the list holds
    at the call; later appends to the Python list do not reach it. *)
Definition Sequential := list layer.

Definition is_batchnorm (l : layer) : bool :=
  match l with BatchNorm2d _ => true | _ => false end.

(* ------------------------------------------------------------------ *)
(** * BasicBlock.__init__ *)

Record BasicBlock := mkBasicBlock {
  bb_in_channels : nat;
  bb_out_channels : nat;
  bb_stride : nat;
  conv1 : Sequential;
  conv2 : Sequential;
  shortcut : Sequential
}.

(** Line by line the constructor of BasicBlock.  [conv_block2'] is the
    Python list after the BatchNorm2d append of line 52, which happens after
    [self.conv2] was built from it at line 49. *)
Definition BasicBlock_init (in_channels out_channels kernel_size stride : nat)
    (use_batchnorm : bool) : BasicBlock :=
  let conv_block1 :=
    [Conv2d in_channels out_channels kernel_size stride (kernel_size / 2)
            (negb use_batchnorm)] in
  let conv_block1 :=
    if use_batchnorm then conv_block1 ++ [BatchNorm2d out_channels]
    else conv_block1 in
  let self_conv1 : Sequential := conv_block1 in
  let conv_block2 :=
    [Conv2d out_channels out_channels kernel_size 1 (kernel_size / 2)
            (negb use_batchnorm)] in
  let self_conv2 : Sequential := conv_block2 in
  let conv_block2' :=
    if use_batchnorm then conv_block2 ++ [BatchNorm2d out_channels]
    else conv_block2 in
  let _ := conv_block2' in
  let self_shortcut : Sequential := [] in
  let self_shortcut :=
    if negb (stride =? 1) || negb (in_channels =? out_channels) then
      let shortcut_layers := [Conv2d in_channels out_channels 1 stride 0 false] in
      let shortcut_layers :=
        if use_batchnorm then shortcut_layers ++ [BatchNorm2d out_channels]
        else shortcut_layers in
      shortcut_layers
    else self_shortcut in
  mkBasicBlock in_channels out_channels stride self_conv1 self_conv2 self_shortcut.

(* ------------------------------------------------------------------ *)
(** * ClassifyingResNet._make_layer and __init__ *)

(** [range(1, block_count)] *)
Definition py_range (a b : nat) : list nat := seq a (b - a).

Definition make_layer (use_batchnorm : bool)
    (in_channels out_channels block_count stride : nat) : list BasicBlock :=
  let layers := [BasicBlock_init in_channels out_channels 3 stride use_batchnorm] in
  layers ++ map (fun _ => BasicBlock_init out_channels out_channels 3 stride use_batchnorm)
                (py_range 1 block_count).

(** nn.Linear(in_features, out_features), as a shape-level module. *)
Record Linear := mkLinear { in_features : nat; out_features : nat }.

Record ClassifyingResNet := mkClassifyingResNet {
  conv_block : Sequential;
  max_pool : layer;
  layer1 : list BasicBlock;
  layer2 : list BasicBlock;
  layer3 : list BasicBlock;
  layer4 : list BasicBlock;
  global_pool : nat * nat;   (* nn.AdaptiveAvgPool2d((1, 1)) *)
  rn_fc : Linear
}.

(** Python list indexing [l[i]] for i >= 0 and [l[-1]]; None is IndexError. *)
Definition py_get (l : list nat) (i : nat) : option nat := nth_error l i.
Definition py_last (l : list nat) : option nat := nth_error (rev l) 0.

Definition ClassifyingResNet_init (in_channels num_classes : nat)
    (block_channels num_blocks strides : list nat) (use_batchnorm : bool)
    : option ClassifyingResNet :=
  let conv_block :=
    [Conv2d in_channels in_channels 7 2 3 (negb use_batchnorm)] in
  let conv_block :=
    if use_batchnorm then conv_block ++ [BatchNorm2d in_channels] else conv_block in
  match py_get block_channels 0, py_get block_channels 1,
        py_get block_channels 2, py_get block_channels 3,
        py_get num_blocks 0, py_get num_blocks 1,
        py_get num_blocks 2, py_get num_blocks 3,
        py_get strides 0, py_get strides 1, py_get strides 2, py_get strides 3,
        py_last block_channels with
  | Some c0, Some c1, Some c2, Some c3, Some n0, Some n1, Some n2, Some n3,
    Some s0, Some s1, Some s2, Some s3, Some clast =>
      Some (mkClassifyingResNet conv_block (MaxPool2d 3 2 1)
              (make_layer use_batchnorm in_channels c0 n0 s0)
              (make_layer use_batchnorm c0 c1 n1 s1)
              (make_layer use_batchnorm c1 c2 n2 s2)
              (make_layer use_batchnorm c2 c3 n3 s3)
              (1, 1)
              (mkLinear clast num_classes))
  | _, _, _, _, _, _, _, _, _, _, _, _, _ => None
  end.

(* ------------------------------------------------------------------ *)
(** * Shape semantics of the forward passes *)

(** An (N, C, H, W) shape. *)
Record shape4 := mk4 { dimN : nat; dimC : nat; dimH : nat; dimW : nat }.

(** Output size of a convolution or pooling window along one axis
    (dilation 1, floor mode); None where the padded input is smaller than
    the kernel, which torch rejects. *)
Definition out_size (n k s p : nat) : option nat :=
  if (s =? 0) || (n + 2 * p <? k) then None
  else Some ((n + 2 * p - k) / s + 1).

Definition layer_shape (l : layer) (x : shape4) : option shape4 :=
  match l with
  | Conv2d cin cout k s p _ =>
      if dimC x =? cin then
        match out_size (dimH x) k s p, out_size (dimW x) k s p with
        | Some h, Some w => Some (mk4 (dimN x) cout h w)
        | _, _ => None
        end
      else None
  | BatchNorm2d nf =>
      (* training mode, the mode of a newly built module: the channel count
         must match, and one value per channel (N * H * W = 1) raises *)
      if (dimC x =? nf) && negb (dimN x * dimH x * dimW x =? 1) then Some x else None
  | MaxPool2d k s p =>
      if k / 2 <? p then None else
      match out_size (dimH x) k s p, out_size (dimW x) k s p with
      | Some h, Some w => Some (mk4 (dimN x) (dimC x) h w)
      | _, _ => None
      end
  | ReLU => Some x
  end.

Fixpoint seq_shape (ls : Sequential) (x : shape4) : option shape4 :=
  match ls with
  | [] => Some x
  | l :: ls' =>
      match layer_shape l x with
      | Some y => seq_shape ls' y
      | None => None
      end
  end.

(** In-place [out += identity]: identity must broadcast to out's shape. *)
Definition bcast (a b : nat) : bool := (a =? b) || (a =? 1).

Definition iadd_shape (out identity : shape4) : option shape4 :=
  if bcast (dimN identity) (dimN out) && bcast (dimC identity) (dimC out)
     && bcast (dimH identity) (dimH out) && bcast (dimW identity) (dimW out)
  then Some out else None.

(** BasicBlock.forward: shortcut, conv1, relu, conv2, +=, relu. *)
Definition block_shape (b : BasicBlock) (x : shape4) : option shape4 :=
  match seq_shape (shortcut b) x with
  | None => None
  | Some identity =>
      match seq_shape (conv1 b) x with
      | None => None
      | Some out =>
          match layer_shape ReLU out with
          | None => None
          | Some out =>
              match seq_shape (conv2 b) out with
              | None => None
              | Some out =>
                  match iadd_shape out identity with
                  | None => None
                  | Some out => layer_shape ReLU out
                  end
              end
          end
      end
  end.

Fixpoint blocks_shape (bs : list BasicBlock) (x : shape4) : option shape4 :=
  match bs with
  | [] => Some x
  | b :: bs' =>
      match block_shape b x with
      | Some y => blocks_shape bs' y
      | None => None
      end
  end.

(** nn.AdaptiveAvgPool2d((oh, ow)): the output size (1, 1) is computed as
    a mean over the last two axes, which accepts an empty spatial input;
    other sizes reject it. *)
Definition adaptive_pool_shape (o : nat * nat) (x : shape4) : option shape4 :=
  if (fst o =? 1) && (snd o =? 1) then Some (mk4 (dimN x) (dimC x) 1 1)
  else if (dimH x =? 0) || (dimW x =? 0) then None
  else Some (mk4 (dimN x) (dimC x) (fst o) (snd o)).

(** torch.flatten(x, 1) *)
Definition flatten1_shape (x : shape4) : nat * nat :=
  (dimN x, dimC x * dimH x * dimW x).

(** nn.Linear on an (N, F) input. *)
Definition linear_shape (f : Linear) (x : nat * nat) : option (nat * nat) :=
  if snd x =? in_features f then Some (fst x, out_features f) else None.

(** The stem of ClassifyingResNet.forward in the order of the code:
    conv_block, max_pool, relu. *)
Definition stem_shape (m : ClassifyingResNet) (x : shape4) : option shape4 :=
  match seq_shape (conv_block m) x with
  | None => None
  | Some y =>
      match layer_shape (max_pool m) y with
      | None => None
      | Some y => layer_shape ReLU y
      end
  end.

Definition ClassifyingResNet_forward_shape (m : ClassifyingResNet) (x : shape4)
    : option (nat * nat) :=
  match stem_shape m x with
  | None => None
  | Some x =>
  match blocks_shape (layer1 m) x with
  | None => None
  | Some x =>
  match blocks_shape (layer2 m) x with
  | None => None
  | Some x =>
  match blocks_shape (layer3 m) x with
  | None => None
  | Some x =>
  match blocks_shape (layer4 m) x with
  | None => None
  | Some x =>
  match adaptive_pool_shape (global_pool m) x with
  | None => None
  | Some x => linear_shape (rn_fc m) (flatten1_shape x)
  end end end end end end.

(** The main branch of BasicBlock.forward: conv1, relu, conv2. *)
Definition main_shape (b : BasicBlock) (x : shape4) : option shape4 :=
  match seq_shape (conv1 b) x with
  | None => None
  | Some out =>
      match layer_shape ReLU out with
      | None => None
      | Some out => seq_shape (conv2 b) out
      end
  end.

(** Running an nn.Sequential on values, for any interpretation of its
    layers. *)
Section SeqApply.
Variable T : Type.
Variable run_layer : layer -> T -> T.

Fixpoint seq_apply (ls : Sequential) (x : T) : T :=
  match ls with
  | [] => x
  | l :: ls' => seq_apply ls' (run_layer l x)
  end.
End SeqApply.

(* ------------------------------------------------------------------ *)
(** * Values of the stem: F.relu and nn.MaxPool2d on feature maps *)

(** A float activation as far as relu and max pooling see it: a finite
    value or the -inf that MaxPool2d starts each window from. *)
Inductive ext : Type := NegInf | Fin (z : Z).

Definition max_ext (a b : ext) : ext :=
  match a, b with
  | NegInf, _ => b
  | _, NegInf => a
  | Fin x, Fin y => Fin (Z.max x y)
  end.

(** F.relu: max(0, x) elementwise. *)
Definition relu_ext (a : ext) : ext :=
  match a with
  | NegInf => Fin 0
  | Fin x => Fin (Z.max 0 x)
  end.

(** One (H, W) channel, row major. *)
Definition fmap := list (list ext).

Definition fmap_get (m : fmap) (r c : nat) : option ext :=
  match nth_error m r with
  | Some row => nth_error row c
  | None => None
  end.

(** Output length of a pooling axis, floor((n + 2p - k) / s) + 1. *)
Definition pool_out (n k s p : nat) : nat :=
  Z.to_nat ((Z.of_nat n + 2 * Z.of_nat p - Z.of_nat k) / Z.of_nat s + 1).

(** The input indices of output position [o] along an axis of length [n]
    that fall inside the input (the padded ones are skipped, as -inf never
    wins a max). *)
Definition window (o k s p n : nat) : list nat :=
  map Z.to_nat
    (filter (fun z => (0 <=? z)%Z && (z <? Z.of_nat n)%Z)
       (map (fun d => (Z.of_nat (o * s) - Z.of_nat p + Z.of_nat d)%Z) (seq 0 k))).

Definition option_list {A} (o : option A) : list A :=
  match o with Some a => [a] | None => [] end.

Definition window_values (m : fmap) (k s p i j : nat) : list ext :=
  let H := length m in
  let W := length (hd [] m) in
  flat_map (fun r => flat_map (fun c => option_list (fmap_get m r c))
                              (window j k s p W))
           (window i k s p H).

(** nn.MaxPool2d(kernel_size=k, stride=s, padding=p) on one channel. *)
Definition maxpool2d (k s p : nat) (m : fmap) : fmap :=
  let H := length m in
  let W := length (hd [] m) in
  map (fun i => map (fun j => fold_left max_ext (window_values m k s p i j) NegInf)
                    (seq 0 (pool_out W k s p)))
      (seq 0 (pool_out H k s p)).

(** An (N, C, H, W) tensor of activations. *)
Definition tensor := list (list fmap).

Definition relu_t (x : tensor) : tensor := map (map (map (map relu_ext))) x.
Definition max_pool_t (x : tensor) : tensor := map (map (maxpool2d 3 2 1)) x.

Definition rectangular (m : fmap) : Prop :=
  Forall (fun row => length row = length (hd [] m)) m.
Definition rectangular_t (x : tensor) : Prop :=
  Forall (Forall rectangular) x.

Section Stem.
(** self.conv_block: the 7x7 stride-2 convolution and its optional
    BatchNorm2d, whose values do not matter here. *)
Variable conv_block_fn : tensor -> tensor.

(** The stem as ClassifyingResNet.forward applies it: conv, max_pool, relu. *)
Definition stem_code (x : tensor) : tensor := relu_t (max_pool_t (conv_block_fn x)).

(** The stem in the order the spec lists it: conv, relu, max-pool. *)
Definition stem_spec (x : tensor) : tensor := max_pool_t (relu_t (conv_block_fn x)).
End Stem.

(* ------------------------------------------------------------------ *)
(** * Values of nn.AdaptiveAvgPool2d *)

(** One (H, W) channel of real activations, as exact rationals. *)
Definition qmap := list (list Q).

Definition qmap_get (m : qmap) (r c : nat) : Q := nth c (nth r m []) 0%Q.

(** The window of output i along an axis of length n split into o parts:
    from floor(i * n / o) to ceil((i + 1) * n / o). *)
Definition start_index (i o n : nat) : nat := i * n / o.
Definition end_index (i o n : nat) : nat := ((i + 1) * n + o - 1) / o.

Definition Qsum (l : list Q) : Q := fold_right Qplus 0%Q l.

(** nn.AdaptiveAvgPool2d((oh, ow)) on one channel: each output is the sum
    of its window divided by the window's area. *)
Definition adaptive_avg_pool2d (oh ow : nat) (m : qmap) : qmap :=
  let H := length m in
  let W := length (hd [] m) in
  map (fun i =>
    let hs := start_index i oh H in
    let kh := end_index i oh H - hs in
    map (fun j =>
      let ws := start_index j ow W in
      let kw := end_index j ow W - ws in
      Qdiv (Qsum (map (fun r => Qsum (map (fun c => qmap_get m r c) (seq ws kw)))
                      (seq hs kh)))
           (inject_Z (Z.of_nat (kh * kw))))
      (seq 0 ow))
    (seq 0 oh).

(** self.global_pool on an (N, C, H, W) tensor. *)
Definition global_pool_t (x : list (list qmap)) : list (list qmap) :=
  map (map (adaptive_avg_pool2d 1 1)) x.

(* ------------------------------------------------------------------ *)
(** * ClassGuidedUNet: the parameter store *)

(** The autograd flags of all live parameters: [requires_grad p] for every
    parameter id, the next fresh id, and the global grad mode that
    torch.no_grad switches. *)
Record store := mkStore {
  requires_grad : nat -> bool;
  next_id : nat;
  grad_enabled : bool
}.

Definition set_requires_grad (st : store) (p : nat) (v : bool) : store :=
  mkStore (fun q => if q =? p then v else requires_grad st q)
          (next_id st) (grad_enabled st).

Definition set_grad_mode (st : store) (v : bool) : store :=
  mkStore (requires_grad st) (next_id st) v.

(** nn.Parameter creation: a fresh id that requires grad. *)
Definition alloc_param (st : store) : nat * store :=
  (next_id st,
   mkStore (fun q => if q =? next_id st then true else requires_grad st q)
           (S (next_id st)) (grad_enabled st)).

(** The parameters a ClassGuidedUNet holds: those of the classifier and of
    the unet it was given (their [parameters()]) and the weight and bias of
    its own fc. *)
Record cgu_params := mkCguParams {
  classifier_params : list nat;
  unet_params : list nat;
  fc_params : list nat
}.

(** ClassGuidedUNet.__init__ on the store: nn.Linear allocates its weight
    and bias, then the loop over classifier.parameters() clears
    requires_grad on each. *)
Definition ClassGuidedUNet_init_store (classifier unet : list nat) (st : store)
    : cgu_params * store :=
  let (w, st) := alloc_param st in
  let (b, st) := alloc_param st in
  let st := fold_left (fun st param => set_requires_grad st param false)
                      classifier st in
  (mkCguParams classifier unet [w; b], st).

Section CguForwardStore.
(** The store effect of the sub-module calls; the forward passes of the
    classifier and the unet do not write requires_grad. *)
Variable classifier_call unet_call : store -> store.
Hypothesis classifier_call_flags : forall st, requires_grad (classifier_call st) = requires_grad st.
Hypothesis unet_call_flags : forall st, requires_grad (unet_call st) = requires_grad st.

(** ClassGuidedUNet.forward on the store: the classifier runs under
    torch.no_grad, which restores the previous grad mode on exit; fc, view
    and the unet follow. *)
Definition ClassGuidedUNet_forward_store (st : store) : store :=
  let mode := grad_enabled st in
  let st := set_grad_mode st false in
  let st := classifier_call st in
  let st := set_grad_mode st mode in
  unet_call st.
End CguForwardStore.

(* ------------------------------------------------------------------ *)
(** * ClassGuidedUNet: tensors, nn.Linear and view *)

(** A tensor: its shape and its entries in row-major order. *)
Record ttensor := mkT { tshape : list nat; tdata : list Z }.

Definition numel (shape : list nat) : nat := fold_right Nat.mul 1 shape.

(** [n] consecutive rows of [k] entries. *)
Fixpoint rows (n k : nat) (l : list Z) : list (list Z) :=
  match n with
  | 0 => []
  | S n' => firstn k l :: rows n' k (skipn k l)
  end.

Fixpoint dot (w x : list Z) : Z :=
  match w, x with
  | a :: w', b :: x' => (a * b + dot w' x')%Z
  | _, _ => 0%Z
  end.

(** nn.Linear with its parameters: [weight] has out_features rows of
    in_features entries, [bias] out_features entries. *)
Record LinearP := mkLinearP {
  lin : Linear;
  weight : list (list Z);
  bias : list Z
}.

(** nn.Linear.forward: the last axis must have in_features entries and
    becomes out_features; each row maps to W row + b. *)
Definition linear_fwd (f : LinearP) (x : ttensor) : option ttensor :=
  match rev (tshape x) with
  | [] => None
  | k :: rlead =>
      let lead := rev rlead in
      if k =? in_features (lin f) then
        Some (mkT (lead ++ [out_features (lin f)])
                  (concat (map (fun row =>
                                  map (fun wb => (dot (fst wb) row + snd wb)%Z)
                                      (combine (weight f) (bias f)))
                               (rows (numel lead) k (tdata x)))))
      else None
  end.

(** Tensor.view with entries [Some d] for a size d and [None] for -1: the
    -1 is inferred from the element count, which the other sizes must
    divide; without -1 the sizes must multiply to the count. *)
Definition view (x : ttensor) (sizes : list (option nat)) : option ttensor :=
  let n := length (tdata x) in
  let known := fold_right (fun o acc => match o with Some d => d * acc | None => acc end)
                          1 sizes in
  let holes := length (filter (fun o => match o with None => true | _ => false end) sizes) in
  if holes =? 0 then
    if known =? n then Some (mkT (map (fun o => match o with Some d => d | None => 0 end) sizes)
                                 (tdata x))
    else None
  else if (holes =? 1) && negb (known =? 0) && (n mod known =? 0) then
    Some (mkT (map (fun o => match o with Some d => d | None => n / known end) sizes)
              (tdata x))
  else None.

Definition FEATURE_CHANNELS : nat := 32.

Record ClassGuidedUNet := mkClassGuidedUNet {
  classifier : ttensor -> option ttensor;
  unet : ttensor -> ttensor -> option ttensor;
  cg_fc : LinearP
}.

(** ClassGuidedUNet.__init__ (values): fc = nn.Linear(10, feature_channels
    * 12 * 12) with the given initial parameters. *)
Definition ClassGuidedUNet_init (classifier : ttensor -> option ttensor)
    (unet : ttensor -> ttensor -> option ttensor) (feature_channels : nat)
    (w : list (list Z)) (b : list Z) : ClassGuidedUNet :=
  mkClassGuidedUNet classifier unet
    (mkLinearP (mkLinear 10 (feature_channels * 12 * 12)) w b).

(** The conditioning tensor built in forward: fc, then
    view(-1, out_features // (12 * 12), 12, 12). *)
Definition condition (m : ClassGuidedUNet) (class_out : ttensor) : option ttensor :=
  match linear_fwd (cg_fc m) class_out with
  | None => None
  | Some class_out =>
      view class_out [None; Some (out_features (lin (cg_fc m)) / (12 * 12)); Some 12; Some 12]
  end.

(** ClassGuidedUNet.forward. *)
Definition ClassGuidedUNet_forward (m : ClassGuidedUNet) (x : ttensor) : option ttensor :=
  match classifier m x with
  | None => None
  | Some class_out =>
      match condition m class_out with
      | None => None
      | Some class_out => unet m x class_out
      end
  end.

(** The test double of the spec's scenario: a U-Net that asserts the shape
    (N, 32, 12, 12) of its conditioning tensor and returns its image. *)
Definition stub_unet (N : nat) (x cond : ttensor) : option ttensor :=
  if list_eq_dec Nat.eq_dec (tshape cond) [N; 32; 12; 12] then Some x else None.

(** A store in which the ids below [n] are live and all require grad. *)
Definition all_true_store (n : nat) : store := mkStore (fun _ => true) n true.

(* ================================================================== *)
(** * Properties *)

Definition default_resnet : option ClassifyingResNet :=
  ClassifyingResNet_init 3 10 [16; 32; 64; 128] [2; 2; 2; 2] [2; 1; 1; 1] true.

Example default_resnet_forward :
  match default_resnet with
  | Some m => ClassifyingResNet_forward_shape m (mk4 2 3 96 96)
  | None => None
  end = Some (2, 10).
Proof. reflexivity. Qed.

(** ** BasicBlock *)

(** C1: with use_batchnorm = True the applied second branch [self.conv2] is
    the bare convolution: the BatchNorm2d appended to [conv_block2] after
    nn.Sequential was built is not in it, while conv1 is normalized and the
    shortcut is normalized exactly when it is a projection. *)
Theorem BasicBlock_conv2_without_batchnorm :
  forall in_channels out_channels kernel_size stride,
    let b := BasicBlock_init in_channels out_channels kernel_size stride true in
    conv2 b = [Conv2d out_channels out_channels kernel_size 1 (kernel_size / 2) false]
    /\ existsb is_batchnorm (conv2 b) = false
    /\ existsb is_batchnorm (conv1 b) = true
    /\ existsb is_batchnorm (shortcut b)
       = negb (stride =? 1) || negb (in_channels =? out_channels).
Proof.
  intros cin cout k s b; subst b; unfold BasicBlock_init; simpl.
  repeat split.
  destruct (negb (s =? 1) || negb (cin =? cout)); reflexivity.
Qed.

Lemma out_size_odd : forall n p s,
  1 <= s -> out_size n (2 * p + 1) s p = out_size n 1 s 0.
Proof.
  intros n p s Hs; unfold out_size.
  destruct (s =? 0); [reflexivity|].
  destruct (n + 2 * p <? 2 * p + 1) eqn:E1;
  destruct (n + 2 * 0 <? 1) eqn:E2; simpl; try reflexivity.
  all: first [apply Nat.ltb_lt in E1 | apply Nat.ltb_ge in E1];
       first [apply Nat.ltb_lt in E2 | apply Nat.ltb_ge in E2];
       first [lia | do 3 f_equal; lia].
Qed.

Lemma out_size_stride1 : forall n p,
  out_size n (2 * p + 1) 1 p = if n =? 0 then None else Some n.
Proof.
  intros n p; rewrite out_size_odd by lia; unfold out_size.
  rewrite Nat.div_1_r; destruct n; [reflexivity|]; simpl.
  f_equal; lia.
Qed.

(** C8 (as it fails): with an even kernel_size the projection shortcut and
    the main branch disagree in spatial size: BasicBlock(3, 8,
    kernel_size=2) maps a 5x5 input to 5x5 on the shortcut and to 7x7 on the
    main branch, and the residual addition fails. *)
Lemma BasicBlock_even_kernel_shortcut_mismatch :
  let b := BasicBlock_init 3 8 2 1 false in
  let x := mk4 1 3 5 5 in
  seq_shape (shortcut b) x = Some (mk4 1 8 5 5)
  /\ main_shape b x = Some (mk4 1 8 7 7)
  /\ block_shape b x = None.
Proof. vm_compute. repeat split. Qed.

Lemma shortcut_def : forall cin cout k s bn,
  shortcut (BasicBlock_init cin cout k s bn) =
    if negb (s =? 1) || negb (cin =? cout) then
      Conv2d cin cout 1 s 0 false
        :: (if bn then [BatchNorm2d cout] else [])
    else [].
Proof.
  intros; unfold BasicBlock_init; simpl.
  destruct (negb (s =? 1) || negb (cin =? cout)); [|reflexivity].
  destruct bn; reflexivity.
Qed.

Lemma shortcut_cond_true : forall cin cout s,
  (cin <> cout \/ s <> 1) -> negb (s =? 1) || negb (cin =? cout) = true.
Proof.
  intros cin cout s Hne; destruct Hne as [H|H];
    [apply Nat.eqb_neq in H; rewrite H, orb_true_r; reflexivity
    |apply Nat.eqb_neq in H; rewrite H; reflexivity].
Qed.

Lemma conv1_def : forall cin cout k s bn,
  conv1 (BasicBlock_init cin cout k s bn) =
    Conv2d cin cout k s (k / 2) (negb bn) :: (if bn then [BatchNorm2d cout] else []).
Proof. intros; destruct bn; reflexivity. Qed.

Lemma conv2_def : forall cin cout k s bn,
  conv2 (BasicBlock_init cin cout k s bn) = [Conv2d cout cout k 1 (k / 2) (negb bn)].
Proof. intros; destruct bn; reflexivity. Qed.

Lemma out_size_some_pos : forall n k s p m, out_size n k s p = Some m -> 1 <= m.
Proof.
  intros n k s p m; unfold out_size.
  destruct (_ || _); [discriminate|]; intros E; injection E as <-; lia.
Qed.

Lemma out_size_even : forall n p s,
  out_size n (2 * p) s p = if s =? 0 then None else Some (n / s + 1).
Proof.
  intros n p s; unfold out_size.
  destruct (s =? 0); [reflexivity|].
  rewrite (proj2 (Nat.ltb_ge (n + 2 * p) (2 * p))) by lia; cbn [orb].
  replace (n + 2 * p - 2 * p) with n by lia; reflexivity.
Qed.

(** The BatchNorm2d a block appends (when use_batchnorm) after a layer. *)
Lemma seq_shape_opt_bn : forall (bn : bool) (c : nat) (x : shape4),
  seq_shape (if bn then [BatchNorm2d c] else []) x
  = if bn && negb ((dimC x =? c) && negb (dimN x * dimH x * dimW x =? 1))
    then None else Some x.
Proof.
  intros [|] c x; cbn [seq_shape layer_shape andb negb]; [|reflexivity].
  destruct (_ && _); reflexivity.
Qed.

Lemma shortcut_main_shape_odd : forall cin cout k s bn,
  Nat.odd k = true -> (cin <> cout \/ s <> 1) ->
  forall x, seq_shape (shortcut (BasicBlock_init cin cout k s bn)) x
            = main_shape (BasicBlock_init cin cout k s bn) x.
Proof.
  intros cin cout k s bn Hodd Hne [n c h w].
  pose proof (shortcut_cond_true cin cout s Hne) as Hcond.
  apply Nat.odd_spec in Hodd; destruct Hodd as [p Hp]; subst k.
  unfold main_shape; rewrite shortcut_def, Hcond, conv1_def, conv2_def.
  replace ((2 * p + 1) / 2) with p by (apply Nat.div_unique with 1; lia).
  destruct (s =? 0) eqn:Es0.
  { cbn [seq_shape layer_shape dimC dimH dimW].
    destruct (c =? cin); [|reflexivity].
    unfold out_size; rewrite Es0; reflexivity. }
  assert (Hs : 1 <= s) by (apply Nat.eqb_neq in Es0; lia).
  cbn [seq_shape layer_shape dimC dimH dimW dimN].
  destruct (c =? cin); [|reflexivity].
  rewrite !out_size_odd by exact Hs.
  destruct (out_size h 1 s 0) as [h'|] eqn:Eh; [|reflexivity].
  destruct (out_size w 1 s 0) as [w'|] eqn:Ew; [|reflexivity].
  apply out_size_some_pos in Eh; apply out_size_some_pos in Ew.
  rewrite !seq_shape_opt_bn; cbn [dimC dimN dimH dimW].
  destruct (bn && _); [reflexivity|].
  cbn [seq_shape layer_shape dimC dimH dimW dimN].
  rewrite Nat.eqb_refl, !out_size_stride1.
  rewrite (proj2 (Nat.eqb_neq h' 0)) by lia.
  rewrite (proj2 (Nat.eqb_neq w' 0)) by lia.
  reflexivity.
Qed.

Lemma main_shape_identity_odd : forall c k bn x y,
  Nat.odd k = true ->
  main_shape (BasicBlock_init c c k 1 bn) x = Some y -> y = x.
Proof.
  intros c k bn [n c0 h w] y Hodd.
  apply Nat.odd_spec in Hodd; destruct Hodd as [p Hp]; subst k.
  unfold main_shape; rewrite conv1_def, conv2_def.
  replace ((2 * p + 1) / 2) with p by (apply Nat.div_unique with 1; lia).
  cbn [seq_shape layer_shape dimC dimH dimW dimN].
  destruct (c0 =? c) eqn:Ec; [|discriminate]; apply Nat.eqb_eq in Ec; subst c0.
  rewrite !out_size_stride1.
  destruct (h =? 0); [discriminate|]; destruct (w =? 0); [discriminate|].
  rewrite !seq_shape_opt_bn; cbn [dimC dimN dimH dimW].
  destruct (bn && _); [discriminate|].
  cbn [seq_shape layer_shape dimC dimH dimW dimN].
  rewrite Nat.eqb_refl, !out_size_stride1.
  destruct (h =? 0); [discriminate|]; destruct (w =? 0); [discriminate|].
  intros E; injection E as <-; reflexivity.
Qed.

Lemma main_shape_even : forall cin cout p s bn n c h w y,
  main_shape (BasicBlock_init cin cout (2 * p) s bn) (mk4 n c h w) = Some y ->
  dimH y = h / s + 2 /\ dimW y = w / s + 2.
Proof.
  intros cin cout p s bn n c h w y.
  unfold main_shape; rewrite conv1_def, conv2_def.
  replace ((2 * p) / 2) with p by (rewrite Nat.mul_comm, Nat.div_mul; lia).
  cbn [seq_shape layer_shape dimC dimH dimW dimN].
  destruct (c =? cin); [|discriminate].
  rewrite !out_size_even.
  destruct (s =? 0); [discriminate|].
  rewrite !seq_shape_opt_bn; cbn [dimC dimN dimH dimW].
  destruct (bn && _); [discriminate|].
  cbn [seq_shape layer_shape dimC dimH dimW dimN].
  rewrite Nat.eqb_refl, !out_size_even, !Nat.div_1_r; cbn [Nat.eqb].
  intros E; injection E as <-; cbn [dimH dimW]; split; lia.
Qed.

Lemma shortcut_shape_dims : forall cin cout k s bn n c h w z,
  seq_shape (shortcut (BasicBlock_init cin cout k s bn)) (mk4 n c h w) = Some z ->
  (cin = cout /\ s = 1 /\ z = mk4 n c h w)
  \/ (1 <= s /\ 1 <= h /\ 1 <= w /\ dimH z = (h - 1) / s + 1 /\ dimW z = (w - 1) / s + 1).
Proof.
  intros cin cout k s bn n c h w z; rewrite shortcut_def.
  destruct (negb (s =? 1) || negb (cin =? cout)) eqn:Hc.
  - cbn [seq_shape layer_shape dimC dimH dimW dimN].
    destruct (c =? cin); [|discriminate].
    unfold out_size at 1 2.
    destruct (s =? 0) eqn:Es; [discriminate|]; apply Nat.eqb_neq in Es.
    destruct (h + 2 * 0 <? 1) eqn:Eh; [discriminate|]; apply Nat.ltb_ge in Eh.
    destruct (w + 2 * 0 <? 1) eqn:Ew; [discriminate|]; apply Nat.ltb_ge in Ew.
    cbn [orb]; rewrite seq_shape_opt_bn; cbn [dimC dimN dimH dimW].
    destruct (bn && _); [discriminate|].
    intros E; injection E as <-; right; cbn [dimH dimW].
    replace (h + 0 - 1) with (h - 1) by lia.
    replace (w + 0 - 1) with (w - 1) by lia.
    repeat split; lia.
  - apply orb_false_iff in Hc as [Hs Hcc].
    apply negb_false_iff, Nat.eqb_eq in Hs; apply negb_false_iff, Nat.eqb_eq in Hcc.
    cbn [seq_shape]; intros E; injection E as <-; left; auto.
Qed.

(** C8 (amended): the shortcut is the empty nn.Sequential, hence the
    identity on every input, exactly when in_channels = out_channels and
    stride = 1; otherwise it is a 1x1 bias-free convolution with the block's
    stride, followed by BatchNorm2d when use_batchnorm. For an odd
    kernel_size (the default 3, the only size ClassifyingResNet uses) the
    projection shortcut gives the same result as the main branch on every
    input shape, and whenever both branches succeed their output shapes are
    equal; for an even kernel_size, whenever both branches succeed, their
    heights and widths differ. *)
Theorem BasicBlock_shortcut_spec :
  forall in_channels out_channels kernel_size stride use_batchnorm,
    let b := BasicBlock_init in_channels out_channels kernel_size stride use_batchnorm in
    (shortcut b = [] <-> in_channels = out_channels /\ stride = 1)
    /\ (in_channels = out_channels -> stride = 1 ->
        forall (T : Type) (run_layer : layer -> T -> T) (x : T),
          seq_apply T run_layer (shortcut b) x = x)
    /\ ((in_channels <> out_channels \/ stride <> 1) ->
        shortcut b = Conv2d in_channels out_channels 1 stride 0 false
                     :: (if use_batchnorm then [BatchNorm2d out_channels] else []))
    /\ (Nat.odd kernel_size = true ->
        (in_channels <> out_channels \/ stride <> 1) ->
        forall x, seq_shape (shortcut b) x = main_shape b x)
    /\ (Nat.odd kernel_size = true ->
        forall x y z, seq_shape (shortcut b) x = Some z -> main_shape b x = Some y ->
        y = z)
    /\ (Nat.even kernel_size = true ->
        forall x y z, seq_shape (shortcut b) x = Some z -> main_shape b x = Some y ->
        dimH y <> dimH z /\ dimW y <> dimW z).
Proof.
  intros cin cout k s bn b; subst b.
  split; [|split; [|split; [|split; [|split]]]].
  - rewrite shortcut_def.
    destruct (s =? 1) eqn:Es; destruct (cin =? cout) eqn:Ec; simpl;
      apply Nat.eqb_eq in Es || apply Nat.eqb_neq in Es;
      apply Nat.eqb_eq in Ec || apply Nat.eqb_neq in Ec;
      split; intros H; try discriminate; try tauto; lia.
  - intros Hc Hs T run x; subst s cin.
    rewrite shortcut_def, !Nat.eqb_refl; reflexivity.
  - intros Hne; rewrite shortcut_def, (shortcut_cond_true cin cout s Hne); reflexivity.
  - intros Hodd Hne; apply shortcut_main_shape_odd; assumption.
  - intros Hodd x y z Hz Hy.
    destruct (Nat.eq_dec cin cout) as [Ec|Ec]; destruct (Nat.eq_dec s 1) as [Es|Es].
    + subst cout s; rewrite shortcut_def, !Nat.eqb_refl in Hz; cbn in Hz.
      injection Hz as <-; eapply main_shape_identity_odd; eassumption.
    + rewrite shortcut_main_shape_odd in Hz by (assumption || tauto); congruence.
    + rewrite shortcut_main_shape_odd in Hz by (assumption || tauto); congruence.
    + rewrite shortcut_main_shape_odd in Hz by (assumption || tauto); congruence.
  - intros Hev [n c h w] y z Hz Hy.
    apply Nat.even_spec in Hev; destruct Hev as [p Hp]; subst k.
    apply main_shape_even in Hy as [Hyh Hyw].
    destruct (shortcut_shape_dims _ _ _ _ _ _ _ _ _ _ Hz)
      as [[_ [Hs E]] | [Hs [Hh [Hw [Hzh Hzw]]]]].
    + subst s z; rewrite Nat.div_1_r in Hyh, Hyw; cbn [dimH dimW]; lia.
    + rewrite Hyh, Hyw, Hzh, Hzw.
      pose proof (Nat.Div0.div_le_mono (h - 1) h s ltac:(lia)).
      pose proof (Nat.Div0.div_le_mono (w - 1) w s ltac:(lia)).
      lia.
Qed.

Lemma BasicBlock_shortcut_spec_witness :
  shortcut (BasicBlock_init 3 8 3 2 true) = [Conv2d 3 8 1 2 0 false; BatchNorm2d 8]
  /\ seq_shape (shortcut (BasicBlock_init 3 8 3 2 true)) (mk4 1 3 5 5)
     = main_shape (BasicBlock_init 3 8 3 2 true) (mk4 1 3 5 5)
  /\ dimH (mk4 1 8 7 7) <> dimH (mk4 1 8 5 5).
Proof.
  destruct (BasicBlock_shortcut_spec 3 8 3 2 true) as [_ [_ [H1 [H2 _]]]].
  destruct (BasicBlock_shortcut_spec 3 8 2 1 false) as [_ [_ [_ [_ [_ H3]]]]].
  assert (Hne : 3 <> 8 \/ 2 <> 1) by (left; discriminate).
  split; [exact (H1 Hne)|]; split; [exact (H2 eq_refl Hne (mk4 1 3 5 5))|].
  exact (proj1 (H3 eq_refl (mk4 1 3 5 5) (mk4 1 8 7 7) (mk4 1 8 5 5)
                   eq_refl eq_refl)).
Defined.

(** ** ClassifyingResNet._make_layer *)

(** C2 (as it fails): in the stage (3, 16, 2 blocks, stride 2) the second
    block also has stride 2, since _make_layer passes the stage stride to
    every block. *)
Lemma make_layer_later_block_stride :
  ~ (forall b, In b (tl (make_layer true 3 16 2 2)) ->
       bb_in_channels b = bb_out_channels b /\ bb_stride b = 1).
Proof.
  intros H.
  destruct (H (BasicBlock_init 16 16 3 2 true) (or_introl eq_refl)) as [_ Hs].
  discriminate Hs.
Qed.

(** C2 (amended): every block after the first of a stage maps out_channels
    to out_channels (so it preserves the channel count) and has the same
    stride as the stage's first block; a stage has max(1, block_count)
    blocks. *)
Theorem make_layer_later_blocks :
  forall use_batchnorm in_channels out_channels block_count stride b,
    In b (tl (make_layer use_batchnorm in_channels out_channels block_count stride)) ->
    b = BasicBlock_init out_channels out_channels 3 stride use_batchnorm
    /\ bb_in_channels b = out_channels
    /\ bb_out_channels b = out_channels
    /\ bb_stride b = stride.
Proof.
  intros bn cin cout cnt s b Hin.
  unfold make_layer in Hin; simpl in Hin.
  apply in_map_iff in Hin; destruct Hin as [i [<- _]].
  repeat split.
Qed.

Lemma make_layer_later_blocks_witness :
  In (BasicBlock_init 16 16 3 2 true) (tl (make_layer true 3 16 2 2))
  /\ bb_stride (BasicBlock_init 16 16 3 2 true) = 2.
Proof.
  assert (H : In (BasicBlock_init 16 16 3 2 true) (tl (make_layer true 3 16 2 2)))
    by (left; reflexivity).
  split; [exact H|].
  exact (proj2 (proj2 (proj2 (make_layer_later_blocks true 3 16 2 2 _ H)))).
Defined.

(** X16: _make_layer always builds the first block, so a stage has
    max(1, num_blocks) blocks: num_blocks = 0 still gives one block. *)
Lemma make_layer_length : forall bn cin cout cnt s,
  length (make_layer bn cin cout cnt s) = Nat.max 1 cnt.
Proof.
  intros; unfold make_layer, py_range.
  rewrite length_app, length_map, length_seq; cbn [length]; lia.
Qed.

(** ** Shapes through ClassifyingResNet.forward *)

Arguments out_size : simpl never.
Arguments Nat.div : simpl never.

Lemma out_size_pos : forall n k s p,
  1 <= s -> k <= n + 2 * p -> out_size n k s p = Some ((n + 2 * p - k) / s + 1).
Proof.
  intros n k s p Hs Hk; unfold out_size.
  rewrite (proj2 (Nat.eqb_neq s 0)) by lia.
  rewrite (proj2 (Nat.ltb_ge (n + 2 * p) k)) by lia.
  reflexivity.
Qed.

Lemma block_shape_main_shortcut : forall b x,
  block_shape b x =
  match seq_shape (shortcut b) x with
  | None => None
  | Some identity =>
      match main_shape b x with
      | None => None
      | Some out => iadd_shape out identity
      end
  end.
Proof.
  intros b x; unfold block_shape, main_shape; simpl.
  destruct (seq_shape (shortcut b) x); [|reflexivity].
  destruct (seq_shape (conv1 b) x); [|reflexivity].
  destruct (seq_shape (conv2 b) s0); [|reflexivity].
  destruct (iadd_shape s1 s); reflexivity.
Qed.







Lemma stem_shape_init : forall cin num_classes bcs nbs sts bn m n h w,
  ClassifyingResNet_init cin num_classes bcs nbs sts bn = Some m ->
  1 <= h -> 1 <= w ->
  stem_shape m (mk4 n cin h w)
  = if bn && (n * ((h - 1) / 2 + 1) * ((w - 1) / 2 + 1) =? 1) then None
    else Some (mk4 n cin (((h - 1) / 2 + 1 - 1) / 2 + 1) (((w - 1) / 2 + 1 - 1) / 2 + 1)).
Proof.
  intros cin nc bcs nbs sts bn m n h w Hm Hh Hw.
  unfold ClassifyingResNet_init in Hm.
  repeat match type of Hm with
  | context [match ?e with Some _ => _ | None => _ end] => destruct e
  end; try discriminate.
  injection Hm as <-.
  unfold stem_shape; cbn [conv_block max_pool].
  replace (if bn then [Conv2d cin cin 7 2 3 (negb bn); BatchNorm2d cin]
           else [Conv2d cin cin 7 2 3 (negb bn)])
    with (Conv2d cin cin 7 2 3 (negb bn) :: (if bn then [BatchNorm2d cin] else []))
    by (destruct bn; reflexivity).
  cbn [seq_shape layer_shape dimC dimH dimW dimN]; rewrite Nat.eqb_refl.
  rewrite !(out_size_pos _ 7 2 3) by lia.
  replace (h + 2 * 3 - 7) with (h - 1) by lia.
  replace (w + 2 * 3 - 7) with (w - 1) by lia.
  rewrite seq_shape_opt_bn; cbn [dimC dimN dimH dimW]; rewrite Nat.eqb_refl.
  destruct bn; cbn [andb negb];
    [destruct (n * ((h - 1) / 2 + 1) * ((w - 1) / 2 + 1) =? 1); cbn [negb];
       [reflexivity|] | ].
  all: cbn [layer_shape dimH dimW dimN dimC]; change (3 / 2 <? 1) with false;
    cbv iota;
    rewrite !(out_size_pos _ 3 2 1) by lia;
    replace ((h - 1) / 2 + 1 + 2 * 1 - 3) with ((h - 1) / 2 + 1 - 1) by lia;
    replace ((w - 1) / 2 + 1 + 2 * 1 - 3) with ((w - 1) / 2 + 1 - 1) by lia;
    reflexivity.
Qed.







(** ** The stem: relu and max pooling *)

Lemma relu_max_ext : forall a b,
  relu_ext (max_ext a b) = max_ext (relu_ext a) (relu_ext b).
Proof.
  intros [|x] [|y]; simpl; try reflexivity; f_equal; lia.
Qed.

Lemma relu_fold_max : forall l a,
  relu_ext (fold_left max_ext l a) = fold_left max_ext (map relu_ext l) (relu_ext a).
Proof.
  induction l as [|x l IH]; intros a; simpl; [reflexivity|].
  rewrite IH, relu_max_ext; reflexivity.
Qed.

Lemma relu_fold_max_nonempty : forall l,
  l <> [] ->
  relu_ext (fold_left max_ext l NegInf) = fold_left max_ext (map relu_ext l) NegInf.
Proof.
  intros [|x l] Hl; [contradiction|]; simpl.
  rewrite relu_fold_max; reflexivity.
Qed.

Lemma fmap_get_relu : forall m r c,
  fmap_get (map (map relu_ext) m) r c = option_map relu_ext (fmap_get m r c).
Proof.
  intros m r c; unfold fmap_get; rewrite nth_error_map.
  destruct (nth_error m r) as [row|]; simpl; [|reflexivity].
  rewrite nth_error_map; reflexivity.
Qed.

Lemma map_flat_map : forall (A B C : Type) (f : B -> C) (g : A -> list B) l,
  map f (flat_map g l) = flat_map (fun x => map f (g x)) l.
Proof.
  intros A B C f g l; induction l as [|x l IH]; simpl; [reflexivity|].
  rewrite map_app, IH; reflexivity.
Qed.

Lemma hd_map_relu : forall m : fmap,
  hd [] (map (map relu_ext) m) = map relu_ext (hd [] m).
Proof. intros [|row m]; reflexivity. Qed.

Lemma window_values_relu : forall m k s p i j,
  window_values (map (map relu_ext) m) k s p i j
  = map relu_ext (window_values m k s p i j).
Proof.
  intros m k s p i j; unfold window_values; cbv zeta.
  rewrite length_map, hd_map_relu, length_map, map_flat_map.
  apply flat_map_ext; intros r.
  rewrite map_flat_map; apply flat_map_ext; intros c.
  rewrite fmap_get_relu; destruct (fmap_get m r c); reflexivity.
Qed.

(** The centre (2i) of window i lies inside an axis of length n whenever i
    is an output position of the 3/2/1 pooling. *)
Lemma window_centre : forall i n,
  i < pool_out n 3 2 1 -> 2 * i < n /\ In (2 * i) (window i 3 2 1 n).
Proof.
  intros i n Hi; unfold pool_out in Hi.
  assert (Hn : 2 * i < n).
  { replace (Z.of_nat 1) with 1%Z in Hi by reflexivity.
    replace (Z.of_nat 2) with 2%Z in Hi by reflexivity.
    replace (Z.of_nat 3) with 3%Z in Hi by reflexivity.
    set (q := ((Z.of_nat n + 2 * 1 - 3) / 2)%Z) in Hi.
    assert (Hz : (Z.of_nat i < q + 1)%Z).
    { destruct (Z_lt_le_dec (q + 1) 0) as [Hneg|Hnn].
      - assert (E0 : Z.to_nat (q + 1) = 0)
          by (destruct (q + 1)%Z; [reflexivity | lia | reflexivity]).
        lia.
      - rewrite <- (Z2Nat.id (q + 1)) by exact Hnn.
        apply Nat2Z.inj_lt; exact Hi. }
    subst q; Z.to_euclidean_division_equations; lia. }
  split; [exact Hn|].
  unfold window; apply in_map_iff.
  exists (Z.of_nat (i * 2) - Z.of_nat 1 + Z.of_nat 1)%Z; split; [lia|].
  apply filter_In; split.
  - simpl; right; left; reflexivity.
  - apply andb_true_intro; split; [apply Z.leb_le | apply Z.ltb_lt]; lia.
Qed.

Lemma window_values_nonempty : forall m i j,
  rectangular m ->
  i < pool_out (length m) 3 2 1 ->
  j < pool_out (length (hd [] m)) 3 2 1 ->
  window_values m 3 2 1 i j <> [].
Proof.
  intros m i j Hrect Hi Hj.
  destruct (window_centre i (length m) Hi) as [Hr Hinr].
  destruct (window_centre j (length (hd [] m)) Hj) as [Hc Hinc].
  destruct (nth_error m (2 * i)) as [row|] eqn:Erow;
    [|apply nth_error_None in Erow; lia].
  assert (Hlen : length row = length (hd [] m)).
  { unfold rectangular in Hrect; rewrite Forall_forall in Hrect.
    apply Hrect; eapply nth_error_In; exact Erow. }
  destruct (nth_error row (2 * j)) as [v|] eqn:Ev;
    [|apply nth_error_None in Ev; lia].
  assert (Hin : In v (window_values m 3 2 1 i j)).
  { unfold window_values; cbv zeta.
    apply in_flat_map; exists (2 * i); split; [exact Hinr|].
    apply in_flat_map; exists (2 * j); split; [exact Hinc|].
    unfold fmap_get; rewrite Erow, Ev; left; reflexivity. }
  intros E; rewrite E in Hin; destruct Hin.
Qed.

Lemma maxpool_relu_comm : forall m,
  rectangular m ->
  maxpool2d 3 2 1 (map (map relu_ext) m) = map (map relu_ext) (maxpool2d 3 2 1 m).
Proof.
  intros m Hrect; unfold maxpool2d; cbv zeta.
  rewrite length_map, hd_map_relu, length_map, map_map.
  apply map_ext_in; intros i Hi; rewrite map_map.
  apply map_ext_in; intros j Hj.
  apply in_seq in Hi; apply in_seq in Hj.
  rewrite window_values_relu; symmetry.
  apply relu_fold_max_nonempty, window_values_nonempty; [assumption|lia|lia].
Qed.

(** C3: for every convolution output whose channels are H x W arrays, the
    stem as the spec orders it (conv, relu, max-pool) equals the stem as the
    code applies it (conv, max-pool, relu): relu commutes with the
    3x3/stride 2/padding 1 max pooling, whose windows always hold an input
    entry. *)
Theorem stem_relu_maxpool_commute : forall conv_block_fn x,
  rectangular_t (conv_block_fn x) ->
  stem_spec conv_block_fn x = stem_code conv_block_fn x.
Proof.
  intros conv x Hrect; unfold stem_spec, stem_code, relu_t, max_pool_t.
  induction Hrect as [|chans t Hchans Ht IH]; simpl; [reflexivity|].
  rewrite IH; f_equal.
  rewrite !map_map; apply map_ext_in; intros m Hm.
  rewrite Forall_forall in Hchans.
  apply maxpool_relu_comm, Hchans, Hm.
Qed.

Lemma stem_relu_maxpool_commute_witness :
  let x : tensor :=
    [[[[Fin (-3); Fin 5; Fin (-1)]; [Fin 2; NegInf; Fin (-7)];
       [Fin (-4); Fin (-2); Fin (-9)]; [Fin 1; Fin 0; Fin (-1)]]]] in
  rectangular_t (id x) /\ stem_spec id x = stem_code id x.
Proof.
  intros x.
  assert (H : rectangular_t (id x)).
  { unfold rectangular_t, rectangular; repeat constructor. }
  split; [exact H|].
  exact (stem_relu_maxpool_commute id x H).
Defined.

(** ** Global average pooling *)

Lemma Qsum_const : forall (f : nat -> Q) l c,
  (forall x, In x l -> f x == c) ->
  Qsum (map f l) == inject_Z (Z.of_nat (length l)) * c.
Proof.
  intros f l c Hf; induction l as [|x l IH].
  - reflexivity.
  - change (Qsum (map f (x :: l))) with (Qplus (f x) (Qsum (map f l))).
    change (length (x :: l)) with (S (length l)).
    rewrite (Hf x (or_introl eq_refl)), IH by (intros y Hy; apply Hf; right; exact Hy).
    rewrite Nat2Z.inj_succ, <- Z.add_1_r, inject_Z_plus; ring.
Qed.

Lemma inject_Z_of_nat_neq_0 : forall n, 1 <= n -> ~ inject_Z (Z.of_nat n) == 0.
Proof.
  intros n Hn E; change 0%Q with (inject_Z 0) in E.
  rewrite inject_Z_injective in E; lia.
Qed.

Lemma adaptive_avg_pool2d_1_1_const : forall H W c,
  1 <= H -> 1 <= W ->
  exists q, adaptive_avg_pool2d 1 1 (repeat (repeat c W) H) = [[q]] /\ q == c.
Proof.
  intros H W c HH HW.
  unfold adaptive_avg_pool2d; cbv zeta.
  assert (Hhd : hd [] (repeat (repeat c W) H) = repeat c W)
    by (destruct H; [lia|reflexivity]).
  rewrite Hhd, !repeat_length.
  unfold start_index, end_index; cbn [seq map].
  rewrite !Nat.div_1_r.
  replace ((0 + 1) * H + 1 - 1 - 0 * H) with H by lia.
  replace ((0 + 1) * W + 1 - 1 - 0 * W) with W by lia.
  replace (0 * H) with 0 by lia; replace (0 * W) with 0 by lia.
  eexists; split; [reflexivity|].
  rewrite (Qsum_const _ _ (inject_Z (Z.of_nat W) * c)).
  - rewrite length_seq, Nat2Z.inj_mul, inject_Z_mult.
    field; split; apply inject_Z_of_nat_neq_0; assumption.
  - intros r Hr; apply in_seq in Hr.
    rewrite (Qsum_const _ _ c), length_seq; [reflexivity|].
    intros c' Hc; apply in_seq in Hc.
    unfold qmap_get; rewrite nth_repeat_lt by lia.
    rewrite nth_repeat_lt by lia; reflexivity.
Qed.

(** C9: on an (N, C, H, W) tensor (H, W >= 1) whose every channel holds one
    constant value c, self.global_pool gives a 1x1 map equal to c in every
    (batch, channel) position. *)
Theorem global_pool_constant :
  forall (x : list (list qmap)) H W c,
    1 <= H -> 1 <= W ->
    Forall (Forall (fun m => m = repeat (repeat c W) H)) x ->
    Forall (Forall (fun m => exists q, m = [[q]] /\ q == c)) (global_pool_t x).
Proof.
  intros x H W c HH HW Hx; unfold global_pool_t.
  apply Forall_map; eapply Forall_impl; [|exact Hx].
  intros chans Hc; apply Forall_map; eapply Forall_impl; [|exact Hc].
  intros m ->; apply adaptive_avg_pool2d_1_1_const; assumption.
Qed.

Lemma global_pool_constant_witness :
  Forall (Forall (fun m => exists q, m = [[q]] /\ q == (3 # 4)))
    (global_pool_t [[repeat (repeat (3 # 4) 6) 6; repeat (repeat (3 # 4) 6) 6]]).
Proof.
  apply (global_pool_constant _ 6 6 (3 # 4)); [lia | lia |].
  repeat constructor.
Defined.

(** ** ClassGuidedUNet: freezing the classifier *)

Lemma freeze_loop_flags : forall l st p,
  requires_grad (fold_left (fun st param => set_requires_grad st param false) l st) p
  = if in_dec Nat.eq_dec p l then false else requires_grad st p.
Proof.
  induction l as [|q l IH]; intros st p; simpl; [reflexivity|].
  rewrite IH; unfold set_requires_grad; simpl.
  destruct (in_dec Nat.eq_dec p l) as [Hl|Hl];
    destruct (Nat.eq_dec q p) as [E|E]; simpl; try reflexivity.
  - subst q; rewrite Nat.eqb_refl; reflexivity.
  - rewrite (proj2 (Nat.eqb_neq p q)) by (intros H; apply E; symmetry; exact H).
    reflexivity.
Qed.

(** C4 (as it fails): when the unet shares a parameter with the classifier
    (here parameter 0 belongs to both), __init__ clears requires_grad on it
    although it is a unet parameter that required grad before. *)
Lemma ClassGuidedUNet_shared_param_frozen :
  let r := ClassGuidedUNet_init_store [0] [0] (all_true_store 1) in
  In 0 (unet_params (fst r))
  /\ requires_grad (all_true_store 1) 0 = true
  /\ requires_grad (snd r) 0 = false.
Proof. vm_compute. split; [left; reflexivity | split; reflexivity]. Qed.

(** C4 (amended): after __init__ every classifier parameter has
    requires_grad = False, the weight and bias of fc have requires_grad =
    True, and every unet parameter that is not also a classifier parameter
    keeps its previous flag; a forward call, whose classifier and unet
    calls do not write the flags, leaves every flag as it was. *)
Theorem ClassGuidedUNet_freeze_classifier :
  forall classifier unet st,
    Forall (fun p => p < next_id st) (classifier ++ unet) ->
    let r := ClassGuidedUNet_init_store classifier unet st in
    (forall p, In p (classifier_params (fst r)) -> requires_grad (snd r) p = false)
    /\ (forall p, In p (fc_params (fst r)) -> requires_grad (snd r) p = true)
    /\ (forall p, In p (unet_params (fst r)) -> ~ In p classifier ->
          requires_grad (snd r) p = requires_grad st p)
    /\ (forall classifier_call unet_call,
          (forall s, requires_grad (classifier_call s) = requires_grad s) ->
          (forall s, requires_grad (unet_call s) = requires_grad s) ->
          forall s, requires_grad
                      (ClassGuidedUNet_forward_store classifier_call unet_call s)
                    = requires_grad s).
Proof.
  intros cls un st Hwf r.
  rewrite Forall_app, !Forall_forall in Hwf; destruct Hwf as [Hc Hu].
  subst r; unfold ClassGuidedUNet_init_store; simpl.
  split; [|split; [|split]].
  - intros p Hp; rewrite freeze_loop_flags.
    destruct (in_dec Nat.eq_dec p cls); [reflexivity | contradiction].
  - intros p Hp; rewrite freeze_loop_flags.
    destruct (in_dec Nat.eq_dec p cls) as [Hin|Hin].
    + apply Hc in Hin; destruct Hp as [<-|[<-|[]]]; lia.
    + simpl; destruct Hp as [<-|[<-|[]]].
      * rewrite (proj2 (Nat.eqb_neq (next_id st) (S (next_id st)))) by lia.
        rewrite Nat.eqb_refl; reflexivity.
      * rewrite Nat.eqb_refl; reflexivity.
  - intros p Hp Hnc; rewrite freeze_loop_flags.
    destruct (in_dec Nat.eq_dec p cls) as [Hin|_]; [contradiction|]; simpl.
    apply Hu in Hp.
    rewrite (proj2 (Nat.eqb_neq p (S (next_id st)))) by lia.
    rewrite (proj2 (Nat.eqb_neq p (next_id st))) by lia.
    reflexivity.
  - intros ccall ucall Hcc Huc s; unfold ClassGuidedUNet_forward_store.
    rewrite Huc; simpl; rewrite Hcc; reflexivity.
Qed.

Lemma ClassGuidedUNet_freeze_classifier_witness :
  Forall (fun p => p < next_id (all_true_store 6)) ([0; 1; 2] ++ [3; 4; 5])
  /\ requires_grad (snd (ClassGuidedUNet_init_store [0; 1; 2] [3; 4; 5] (all_true_store 6))) 4
     = true.
Proof.
  assert (H : Forall (fun p => p < next_id (all_true_store 6)) ([0; 1; 2] ++ [3; 4; 5]))
    by (repeat constructor; simpl; lia).
  split; [exact H|].
  destruct (ClassGuidedUNet_freeze_classifier [0; 1; 2] [3; 4; 5] (all_true_store 6) H)
    as [_ [_ [Hu _]]].
  rewrite Hu; [reflexivity | simpl; tauto | simpl; lia].
Defined.

(** ** ClassGuidedUNet: the conditioning tensor *)

Lemma length_rows : forall n k l, length (rows n k l) = n.
Proof. induction n as [|n IH]; intros k l; simpl; [reflexivity|]; rewrite IH; reflexivity. Qed.

Lemma length_concat_map_const : forall (A B : Type) (f : A -> list B) l c,
  (forall x, length (f x) = c) -> length (concat (map f l)) = length l * c.
Proof.
  intros A B f l c Hf; induction l as [|x l IH]; simpl; [reflexivity|].
  rewrite length_app, Hf, IH; reflexivity.
Qed.

Lemma linear_fwd_2d : forall f t N,
  tshape t = [N; in_features (lin f)] ->
  length (weight f) = out_features (lin f) ->
  length (bias f) = out_features (lin f) ->
  exists y, linear_fwd f t = Some y
    /\ tshape y = [N; out_features (lin f)]
    /\ length (tdata y) = N * out_features (lin f).
Proof.
  intros f t N Hs Hw Hb; unfold linear_fwd; rewrite Hs; simpl.
  rewrite Nat.eqb_refl; eexists; split; [reflexivity|]; split; [reflexivity|]; simpl.
  rewrite (length_concat_map_const _ _ _ _ (out_features (lin f))).
  - rewrite length_rows; lia.
  - intros row; rewrite length_map, length_combine, Hw, Hb; lia.
Qed.

Lemma view_conditioning : forall y N C,
  1 <= C ->
  length (tdata y) = N * (C * 12 * 12) ->
  view y [None; Some C; Some 12; Some 12] = Some (mkT [N; C; 12; 12] (tdata y)).
Proof.
  intros y N C HC Hl; unfold view; rewrite Hl; simpl.
  replace (N * (C * 12 * 12)) with (N * (C * 144)) by lia.
  rewrite (proj2 (Nat.eqb_neq (C * 144) 0)) by lia.
  rewrite Nat.Div0.mod_mul, Nat.div_mul by lia.
  reflexivity.
Qed.

(** C6: for a classifier output of shape (N, 10) and feature_channels >= 1,
    fc gives shape (N, feature_channels * 12 * 12), out_features // 144
    recovers feature_channels, and the view gives shape
    (N, feature_channels, 12, 12). *)
Theorem ClassGuidedUNet_condition_shape :
  forall N feature_channels classifier unet w b t,
    1 <= N -> 1 <= feature_channels ->
    length w = feature_channels * 12 * 12 ->
    length b = feature_channels * 12 * 12 ->
    tshape t = [N; 10] ->
    let m := ClassGuidedUNet_init classifier unet feature_channels w b in
    out_features (lin (cg_fc m)) / (12 * 12) = feature_channels
    /\ (exists y, linear_fwd (cg_fc m) t = Some y
                  /\ tshape y = [N; feature_channels * 12 * 12])
    /\ (exists z, condition m t = Some z /\ tshape z = [N; feature_channels; 12; 12]).
Proof.
  intros N C cls un w b t _ HC Hw Hb Ht m.
  assert (Hdiv : out_features (lin (cg_fc m)) / (12 * 12) = C).
  { subst m; simpl; rewrite <- Nat.mul_assoc, Nat.div_mul by lia; reflexivity. }
  destruct (linear_fwd_2d (cg_fc m) t N Ht Hw Hb) as [y [Hy [Hys Hyl]]].
  split; [exact Hdiv|]; split.
  - exists y; split; [exact Hy | exact Hys].
  - unfold condition; rewrite Hy, Hdiv.
    rewrite (view_conditioning y N C HC Hyl).
    eexists; split; reflexivity.
Qed.

Lemma ClassGuidedUNet_condition_shape_witness :
  exists z,
    condition (ClassGuidedUNet_init (fun _ => None) (fun x _ => Some x) 2
                 (repeat (repeat 1%Z 10) (2 * 12 * 12)) (repeat 0%Z (2 * 12 * 12)))
              (mkT [3; 10] (repeat 1%Z 30)) = Some z
    /\ tshape z = [3; 2; 12; 12].
Proof.
  refine (proj2 (proj2 (ClassGuidedUNet_condition_shape 3 2 (fun _ => None)
            (fun x _ => Some x) _ _ (mkT [3; 10] (repeat 1%Z 30)) _ _ _ _ _))).
  - lia.
  - lia.
  - apply repeat_length.
  - apply repeat_length.
  - reflexivity.
Defined.

(** C7: with the default feature_channels = 32, a classifier returning an
    (N, 10) tensor and the stub U-Net that asserts a conditioning shape of
    (N, 32, 12, 12) and returns its image, forward(x) passes a conditioning
    tensor of shape (N, 32, 12, 12) and returns x. *)
Theorem ClassGuidedUNet_stub_forward :
  forall N classifier w b x class_out,
    1 <= N ->
    length w = FEATURE_CHANNELS * 12 * 12 ->
    length b = FEATURE_CHANNELS * 12 * 12 ->
    classifier x = Some class_out ->
    tshape class_out = [N; 10] ->
    let m := ClassGuidedUNet_init classifier (stub_unet N) FEATURE_CHANNELS w b in
    (exists cond, condition m class_out = Some cond /\ tshape cond = [N; 32; 12; 12])
    /\ ClassGuidedUNet_forward m x = Some x.
Proof.
  intros N cls w b x c _ Hw Hb Hx Hc m.
  destruct (linear_fwd_2d (cg_fc m) c N Hc Hw Hb) as [y [Hy [_ Hyl]]].
  assert (Hcond : condition m c = Some (mkT [N; 32; 12; 12] (tdata y))).
  { unfold condition; rewrite Hy.
    replace (out_features (lin (cg_fc m)) / (12 * 12)) with 32 by reflexivity.
    apply view_conditioning; [lia | exact Hyl]. }
  split.
  - eexists; split; [exact Hcond | reflexivity].
  - unfold ClassGuidedUNet_forward; simpl; rewrite Hx.
    rewrite Hcond; unfold stub_unet; cbn [tshape unet ClassGuidedUNet_init].
    destruct (list_eq_dec Nat.eq_dec [N; 32; 12; 12] [N; 32; 12; 12]) as [_|E];
      [reflexivity | contradiction E; reflexivity].
Qed.

Lemma ClassGuidedUNet_stub_forward_witness :
  let x := mkT [2; 3; 96; 96] (repeat 0%Z (2 * 3 * 96 * 96)) in
  let c := mkT [2; 10] (repeat 1%Z 20) in
  ClassGuidedUNet_forward
    (ClassGuidedUNet_init (fun _ => Some c) (stub_unet 2) FEATURE_CHANNELS
       (repeat (repeat 1%Z 10) (32 * 12 * 12)) (repeat 0%Z (32 * 12 * 12))) x
  = Some x.
Proof.
  intros x c.
  refine (proj2 (ClassGuidedUNet_stub_forward 2 (fun _ => Some c) _ _ x c _ _ _ _ _)).
  - lia.
  - apply repeat_length.
  - apply repeat_length.
  - reflexivity.
  - reflexivity.
Defined.

(* ================================================================== *)
(** * Further properties of the code *)

(** ** ClassifyingResNet.__init__: list indexing *)

(** X1: ClassifyingResNet.__init__ indexes block_channels, num_blocks and
    strides at 0..3, so a list with fewer than four entries raises
    IndexError (no model is built). *)
Theorem ClassifyingResNet_init_short_list :
  forall in_channels num_classes block_channels num_blocks strides use_batchnorm,
    (length block_channels < 4 \/ length num_blocks < 4 \/ length strides < 4) ->
    ClassifyingResNet_init in_channels num_classes block_channels num_blocks strides
      use_batchnorm = None.
Proof.
  intros cin nc bcs nbs sts bn Hlen; unfold ClassifyingResNet_init.
  destruct Hlen as [H|[H|H]].
  - assert (E : py_get bcs 3 = None) by (apply nth_error_None; lia); rewrite E.
    repeat match goal with
    | |- context [match ?e with Some _ => _ | None => _ end] => destruct e
    end; reflexivity.
  - assert (E : py_get nbs 3 = None) by (apply nth_error_None; lia); rewrite E.
    repeat match goal with
    | |- context [match ?e with Some _ => _ | None => _ end] => destruct e
    end; reflexivity.
  - assert (E : py_get sts 3 = None) by (apply nth_error_None; lia); rewrite E.
    repeat match goal with
    | |- context [match ?e with Some _ => _ | None => _ end] => destruct e
    end; reflexivity.
Qed.

Lemma ClassifyingResNet_init_short_list_witness :
  ClassifyingResNet_init 3 10 [16; 32; 64] [2; 2; 2; 2] [2; 1; 1; 1] true = None.
Proof.
  apply ClassifyingResNet_init_short_list; left; simpl; lia.
Defined.

(** ** BasicBlock.forward: shapes *)



Lemma seq_shape_conv_channel_mismatch : forall cin cout k s p bias rest x,
  dimC x <> cin -> seq_shape (Conv2d cin cout k s p bias :: rest) x = None.
Proof.
  intros cin cout k s p bias rest x Hc; simpl.
  rewrite (proj2 (Nat.eqb_neq (dimC x) cin) Hc); reflexivity.
Qed.

(** X4: a BasicBlock fed an input whose channel count differs from its
    in_channels fails (the first convolution of conv1, or of the projection
    shortcut, rejects it), for every kernel size and stride. *)
Theorem BasicBlock_channel_mismatch :
  forall in_channels out_channels kernel_size stride use_batchnorm x,
    dimC x <> in_channels ->
    block_shape (BasicBlock_init in_channels out_channels kernel_size stride use_batchnorm) x
    = None.
Proof.
  intros cin cout k s bn x Hc; rewrite block_shape_main_shortcut, shortcut_def.
  destruct (negb (s =? 1) || negb (cin =? cout)).
  - rewrite seq_shape_conv_channel_mismatch by exact Hc; reflexivity.
  - cbn [seq_shape]; unfold main_shape.
    replace (conv1 (BasicBlock_init cin cout k s bn))
      with (Conv2d cin cout k s (k / 2) (negb bn)
              :: (if bn then [BatchNorm2d cout] else []))
      by (unfold BasicBlock_init; destruct bn; reflexivity).
    rewrite seq_shape_conv_channel_mismatch by exact Hc; reflexivity.
Qed.

Lemma BasicBlock_channel_mismatch_witness :
  block_shape (BasicBlock_init 16 16 3 1 true) (mk4 1 8 10 10) = None.
Proof. apply BasicBlock_channel_mismatch; simpl; lia. Defined.

(** ** ClassifyingResNet._make_layer and forward: shapes *)




Lemma block_shape_channels : forall cin cout k s bn x y,
  block_shape (BasicBlock_init cin cout k s bn) x = Some y -> dimC y = cout.
Proof.
  intros cin cout k s bn x y; rewrite block_shape_main_shortcut.
  destruct (seq_shape (shortcut (BasicBlock_init cin cout k s bn)) x) as [id|];
    [|discriminate].
  unfold main_shape.
  destruct (seq_shape (conv1 (BasicBlock_init cin cout k s bn)) x) as [o|];
    [|discriminate].
  cbn [layer_shape].
  replace (conv2 (BasicBlock_init cin cout k s bn))
    with [Conv2d cout cout k 1 (k / 2) (negb bn)] by reflexivity.
  cbn [seq_shape layer_shape].
  destruct (dimC o =? cout); [|discriminate].
  destruct (out_size (dimH o) k 1 (k / 2)); [|discriminate].
  destruct (out_size (dimW o) k 1 (k / 2)); [|discriminate].
  unfold iadd_shape; destruct (_ && _); [|discriminate].
  intros E; injection E as <-; reflexivity.
Qed.

Lemma make_layer_channels : forall bn cin cout cnt s x y,
  blocks_shape (make_layer bn cin cout cnt s) x = Some y -> dimC y = cout.
Proof.
  intros bn cin cout cnt s x y; unfold make_layer; cbn [app blocks_shape].
  destruct (block_shape (BasicBlock_init cin cout 3 s bn) x) as [z|] eqn:Ez;
    [|discriminate].
  apply block_shape_channels in Ez.
  generalize (py_range 1 cnt); intros l; revert z Ez.
  induction l as [|i l IH]; intros z Hz; cbn [map blocks_shape].
  - intros E; injection E as <-; exact Hz.
  - destruct (block_shape (BasicBlock_init cout cout 3 s bn) z) as [z'|] eqn:Ez';
      [|discriminate].
    apply IH; eapply block_shape_channels; exact Ez'.
Qed.

(** X2: fc is built as nn.Linear(block_channels[-1], num_classes) while
    layer4 outputs block_channels[3] channels, so with more than four
    block_channels whose last entry differs from block_channels[3], forward
    fails on every input. *)
Theorem ClassifyingResNet_long_block_channels_fail :
  forall in_channels num_classes c0 c1 c2 c3 extra num_blocks strides use_batchnorm m x,
    ClassifyingResNet_init in_channels num_classes (c0 :: c1 :: c2 :: c3 :: extra)
      num_blocks strides use_batchnorm = Some m ->
    extra <> [] -> last extra 0 <> c3 ->
    ClassifyingResNet_forward_shape m x = None.
Proof.
  intros cin nc c0 c1 c2 c3 extra nbs sts bn m x Hm Hne Hlast.
  unfold ClassifyingResNet_init in Hm.
  assert (El : py_last (c0 :: c1 :: c2 :: c3 :: extra) = Some (last extra 0)).
  { unfold py_last; destruct extra as [|e extra] using rev_ind; [contradiction|].
    rewrite last_last.
    replace (c0 :: c1 :: c2 :: c3 :: extra ++ [e])
      with ((c0 :: c1 :: c2 :: c3 :: extra) ++ [e]) by reflexivity.
    rewrite rev_app_distr; reflexivity. }
  rewrite El in Hm; cbn [py_get nth_error] in Hm.
  repeat match type of Hm with
  | context [match ?e with Some _ => _ | None => _ end] => destruct e
  end; try discriminate.
  injection Hm as <-.
  unfold ClassifyingResNet_forward_shape; cbn [layer1 layer2 layer3 layer4 global_pool rn_fc].
  destruct (stem_shape _ x) as [x1|]; [|reflexivity].
  destruct (blocks_shape _ x1) as [x2|]; [|reflexivity].
  destruct (blocks_shape _ x2) as [x3|]; [|reflexivity].
  destruct (blocks_shape _ x3) as [x4|]; [|reflexivity].
  destruct (blocks_shape (make_layer bn c2 c3 _ _) x4) as [x5|] eqn:E5; [|reflexivity].
  apply make_layer_channels in E5.
  unfold adaptive_pool_shape, linear_shape, flatten1_shape; cbn.
  rewrite E5, !Nat.mul_1_r, (proj2 (Nat.eqb_neq c3 (last extra 0))) by congruence.
  reflexivity.
Qed.

Lemma ClassifyingResNet_long_block_channels_fail_witness :
  exists m,
    ClassifyingResNet_init 3 10 [16; 32; 64; 128; 256] [2; 2; 2; 2] [2; 1; 1; 1] true
      = Some m
    /\ ClassifyingResNet_forward_shape m (mk4 2 3 96 96) = None.
Proof.
  eexists; split; [reflexivity|].
  apply (ClassifyingResNet_long_block_channels_fail 3 10 16 32 64 128 [256]
           [2; 2; 2; 2] [2; 1; 1; 1] true); [reflexivity | discriminate | simpl; lia].
Defined.



Lemma stem_shape_bad_input : forall cin nc bcs nbs sts bn m x,
  ClassifyingResNet_init cin nc bcs nbs sts bn = Some m ->
  (dimC x <> cin \/ dimH x = 0 \/ dimW x = 0) ->
  stem_shape m x = None.
Proof.
  intros cin nc bcs nbs sts bn m [n c h w] Hm Hx; cbn [dimC dimH dimW] in Hx.
  unfold ClassifyingResNet_init in Hm.
  repeat match type of Hm with
  | context [match ?e with Some _ => _ | None => _ end] => destruct e
  end; try discriminate.
  injection Hm as <-.
  unfold stem_shape; cbn [conv_block].
  assert (Hc : layer_shape (Conv2d cin cin 7 2 3 (negb bn)) (mk4 n c h w) = None).
  { cbn [layer_shape dimC dimH dimW].
    destruct Hx as [Hc | [Hh | Hw]].
    - rewrite (proj2 (Nat.eqb_neq c cin) Hc); reflexivity.
    - subst h; destruct (c =? cin); [|reflexivity].
      unfold out_size; reflexivity.
    - subst w; destruct (c =? cin); [|reflexivity].
      destruct (out_size h 7 2 3); [|reflexivity].
      unfold out_size; reflexivity. }
  destruct bn; cbn [app seq_shape]; rewrite Hc; reflexivity.
Qed.

(** X7: forward fails (torch raises) when the input's channel count is not
    in_channels or its height or width is 0: the 7x7, stride 2, padding 3
    stem convolution rejects it before any block runs. *)
Theorem ClassifyingResNet_forward_bad_input :
  forall in_channels num_classes block_channels num_blocks strides use_batchnorm m x,
    ClassifyingResNet_init in_channels num_classes block_channels num_blocks strides
      use_batchnorm = Some m ->
    (dimC x <> in_channels \/ dimH x = 0 \/ dimW x = 0) ->
    ClassifyingResNet_forward_shape m x = None.
Proof.
  intros cin nc bcs nbs sts bn m x Hm Hx.
  unfold ClassifyingResNet_forward_shape.
  rewrite (stem_shape_bad_input cin nc bcs nbs sts bn m x Hm Hx); reflexivity.
Qed.

Lemma ClassifyingResNet_forward_bad_input_witness :
  exists m,
    ClassifyingResNet_init 3 10 [16; 32; 64; 128] [2; 2; 2; 2] [2; 1; 1; 1] true = Some m
    /\ ClassifyingResNet_forward_shape m (mk4 2 1 96 96) = None.
Proof.
  eexists; split; [reflexivity|].
  apply (ClassifyingResNet_forward_bad_input 3 10 [16; 32; 64; 128] [2; 2; 2; 2]
           [2; 1; 1; 1] true); [reflexivity | left; simpl; lia].
Defined.

(** X17: with use_batchnorm = True (training mode), forward raises on a
    single image of height and width at most 2: the stem convolution turns
    it into a 1 x 1 map, on which the stem BatchNorm2d sees one value per
    channel. *)
Theorem ClassifyingResNet_forward_tiny_batch1_batchnorm :
  forall in_channels num_classes block_channels num_blocks strides m H W,
    ClassifyingResNet_init in_channels num_classes block_channels num_blocks strides
      true = Some m ->
    1 <= H <= 2 -> 1 <= W <= 2 ->
    ClassifyingResNet_forward_shape m (mk4 1 in_channels H W) = None.
Proof.
  intros cin nc bcs nbs sts m H W Hm HH HW.
  unfold ClassifyingResNet_forward_shape.
  rewrite (stem_shape_init cin nc bcs nbs sts true m 1 H W Hm) by lia.
  replace ((H - 1) / 2) with 0 by (symmetry; apply Nat.div_small; lia).
  replace ((W - 1) / 2) with 0 by (symmetry; apply Nat.div_small; lia).
  reflexivity.
Qed.

Lemma ClassifyingResNet_forward_tiny_batch1_batchnorm_witness :
  exists m,
    ClassifyingResNet_init 3 10 [16; 32; 64; 128] [2; 2; 2; 2] [2; 1; 1; 1] true = Some m
    /\ ClassifyingResNet_forward_shape m (mk4 1 3 2 1) = None.
Proof.
  eexists; split; [reflexivity|].
  apply (ClassifyingResNet_forward_tiny_batch1_batchnorm 3 10 [16; 32; 64; 128]
           [2; 2; 2; 2] [2; 1; 1; 1]); [reflexivity | lia | lia].
Defined.

(** ** ClassGuidedUNet: nn.Linear and view *)

Lemma rev_app_single : forall (lead : list nat) k, rev (lead ++ [k]) = k :: rev lead.
Proof. intros lead k; rewrite rev_app_distr; reflexivity. Qed.

(** X8: forward fails (nn.Linear raises) when the classifier's output is a
    0-dimensional tensor or its last axis does not have the 10 entries fc
    expects; the unet is never called. *)
Theorem ClassGuidedUNet_forward_bad_logits :
  forall classifier unet feature_channels w b x class_out,
    classifier x = Some class_out ->
    (tshape class_out = [] \/ exists lead k, tshape class_out = lead ++ [k] /\ k <> 10) ->
    ClassGuidedUNet_forward
      (ClassGuidedUNet_init classifier unet feature_channels w b) x = None.
Proof.
  intros cls un fch w b x c Hx Hc.
  unfold ClassGuidedUNet_forward; cbn [classifier ClassGuidedUNet_init]; rewrite Hx.
  unfold condition, linear_fwd; cbn [cg_fc lin in_features ClassGuidedUNet_init].
  destruct Hc as [E | [lead [k [E Hk]]]]; rewrite E; [reflexivity|].
  rewrite rev_app_single, (proj2 (Nat.eqb_neq k 10) Hk); reflexivity.
Qed.

Lemma ClassGuidedUNet_forward_bad_logits_witness :
  ClassGuidedUNet_forward
    (ClassGuidedUNet_init (fun _ => Some (mkT [2; 5] (repeat 0%Z 10))) (fun x _ => Some x) 32
       [] []) (mkT [2; 3; 4; 4] (repeat 0%Z 96)) = None.
Proof.
  apply (ClassGuidedUNet_forward_bad_logits _ _ _ _ _ _ (mkT [2; 5] (repeat 0%Z 10)));
    [reflexivity | right; exists [2], 5; split; [reflexivity | lia]].
Defined.

(** X9: with feature_channels = 0, fc has 0 outputs and the view
    (-1, 0, 12, 12) cannot infer its -1, so forward fails on every input. *)
Theorem ClassGuidedUNet_zero_feature_channels :
  forall classifier unet feature_channels w b x,
    feature_channels = 0 ->
    ClassGuidedUNet_forward
      (ClassGuidedUNet_init classifier unet feature_channels w b) x = None.
Proof.
  intros cls un fch w b x ->.
  unfold ClassGuidedUNet_forward; cbn [classifier ClassGuidedUNet_init].
  destruct (cls x) as [c|]; [|reflexivity].
  unfold condition; destruct (linear_fwd _ c) as [y|]; [|reflexivity].
  unfold view; cbn [cg_fc lin out_features ClassGuidedUNet_init fold_right filter length].
  reflexivity.
Qed.

Lemma ClassGuidedUNet_zero_feature_channels_witness :
  ClassGuidedUNet_forward
    (ClassGuidedUNet_init (fun _ => Some (mkT [1; 10] (repeat 0%Z 10))) (fun x _ => Some x) 0
       [] []) (mkT [1; 3; 4; 4] (repeat 0%Z 48)) = None.
Proof. apply ClassGuidedUNet_zero_feature_channels; reflexivity. Defined.

Lemma linear_fwd_lead : forall f t lead,
  tshape t = lead ++ [in_features (lin f)] ->
  length (weight f) = out_features (lin f) ->
  length (bias f) = out_features (lin f) ->
  exists y, linear_fwd f t = Some y
    /\ tshape y = lead ++ [out_features (lin f)]
    /\ length (tdata y) = numel lead * out_features (lin f).
Proof.
  intros f t lead Hs Hw Hb; unfold linear_fwd; rewrite Hs, rev_app_single, rev_involutive.
  rewrite Nat.eqb_refl; eexists; split; [reflexivity|]; split; [reflexivity|].
  cbn [tdata].
  rewrite (length_concat_map_const _ _ _ _ (out_features (lin f))).
  - rewrite length_rows; reflexivity.
  - intros row; rewrite length_map, length_combine, Hw, Hb; lia.
Qed.

(** X12: nn.Linear acts on the last axis only, so a classifier output of
    any shape lead ++ [10] (not only (N, 10)) is accepted; the view(-1, ...)
    then folds all leading axes into one, and forward calls the unet with a
    conditioning tensor of shape (numel lead, feature_channels, 12, 12). *)
Theorem ClassGuidedUNet_condition_any_lead :
  forall classifier unet feature_channels w b x class_out lead,
    1 <= feature_channels ->
    length w = feature_channels * 12 * 12 ->
    length b = feature_channels * 12 * 12 ->
    classifier x = Some class_out ->
    tshape class_out = lead ++ [10] ->
    let m := ClassGuidedUNet_init classifier unet feature_channels w b in
    exists cond,
      condition m class_out = Some cond
      /\ tshape cond = [numel lead; feature_channels; 12; 12]
      /\ ClassGuidedUNet_forward m x = unet x cond.
Proof.
  intros cls un C w b x c lead HC Hw Hb Hx Hc m.
  destruct (linear_fwd_lead (cg_fc m) c lead Hc Hw Hb) as [y [Hy [_ Hyl]]].
  assert (Hdiv : out_features (lin (cg_fc m)) / (12 * 12) = C).
  { subst m; simpl; rewrite <- Nat.mul_assoc, Nat.div_mul by lia; reflexivity. }
  assert (Hcond : condition m c = Some (mkT [numel lead; C; 12; 12] (tdata y))).
  { unfold condition; rewrite Hy, Hdiv.
    apply view_conditioning; [exact HC | exact Hyl]. }
  exists (mkT [numel lead; C; 12; 12] (tdata y)); split; [exact Hcond|]; split;
    [reflexivity|].
  unfold ClassGuidedUNet_forward; subst m; cbn [classifier unet ClassGuidedUNet_init].
  rewrite Hx; rewrite Hcond; reflexivity.
Qed.

Lemma ClassGuidedUNet_condition_any_lead_witness :
  exists cond,
    condition (ClassGuidedUNet_init (fun _ => Some (mkT [2; 3; 10] (repeat 1%Z 60)))
                 (fun x _ => Some x) 1 (repeat (repeat 1%Z 10) 144) (repeat 0%Z 144))
              (mkT [2; 3; 10] (repeat 1%Z 60)) = Some cond
    /\ tshape cond = [6; 1; 12; 12]
    /\ ClassGuidedUNet_forward
         (ClassGuidedUNet_init (fun _ => Some (mkT [2; 3; 10] (repeat 1%Z 60)))
            (fun x _ => Some x) 1 (repeat (repeat 1%Z 10) 144) (repeat 0%Z 144))
         (mkT [6; 1; 2; 2] (repeat 0%Z 24))
       = (fun x (_ : ttensor) => Some x) (mkT [6; 1; 2; 2] (repeat 0%Z 24)) cond.
Proof.
  apply (ClassGuidedUNet_condition_any_lead _ _ 1 _ _ (mkT [6; 1; 2; 2] (repeat 0%Z 24))
           (mkT [2; 3; 10] (repeat 1%Z 60)) [2; 3]);
    [lia | apply repeat_length | apply repeat_length | reflexivity | reflexivity].
Defined.

(** ** nn.MaxPool2d: values *)

Lemma max_ext_cases : forall a b, max_ext a b = a \/ max_ext a b = b.
Proof.
  intros [|x] [|y]; simpl; auto.
  destruct (Z.max_spec x y) as [[_ ->]|[_ ->]]; auto.
Qed.

Lemma fold_max_ext_in : forall l acc,
  fold_left max_ext l acc = acc \/ In (fold_left max_ext l acc) l.
Proof.
  induction l as [|a l IH]; intros acc; simpl; [left; reflexivity|].
  destruct (IH (max_ext acc a)) as [E|E]; [|right; right; exact E].
  rewrite E; destruct (max_ext_cases acc a) as [E'|E']; rewrite E'; auto.
Qed.

Lemma fold_max_ext_nonempty : forall l,
  l <> [] -> In (fold_left max_ext l NegInf) l.
Proof.
  intros [|a l] Hl; [contradiction|]; simpl.
  destruct (fold_max_ext_in l a) as [E|E]; [rewrite E; left; reflexivity | right; exact E].
Qed.

(** X14: every entry of nn.MaxPool2d(3, 2, 1) applied to a rectangular
    channel is one of the channel's entries: the -inf padding never reaches
    the output, since every window covers at least one real position. *)
Theorem maxpool2d_entries_from_input :
  forall (m : fmap) row v,
    rectangular m ->
    In row (maxpool2d 3 2 1 m) -> In v row ->
    exists r c, fmap_get m r c = Some v.
Proof.
  intros m row v Hrect Hrow Hv.
  unfold maxpool2d in Hrow; cbv zeta in Hrow.
  apply in_map_iff in Hrow as [i [<- Hi]]; apply in_seq in Hi.
  apply in_map_iff in Hv as [j [<- Hj]]; apply in_seq in Hj.
  pose proof (fold_max_ext_nonempty _
                (window_values_nonempty m i j Hrect ltac:(lia) ltac:(lia))) as Hin.
  unfold window_values in Hin; cbv zeta in Hin.
  apply in_flat_map in Hin as [r [_ Hin]].
  apply in_flat_map in Hin as [c [_ Hin]].
  exists r, c; destruct (fmap_get m r c) as [e|]; [|contradiction].
  destruct Hin as [E|[]]; rewrite E; reflexivity.
Qed.

Lemma maxpool2d_entries_from_input_witness :
  let m := [[Fin 1; Fin 5; Fin 2]; [Fin 0; Fin 3; Fin 4]] in
  rectangular m /\ exists r c, fmap_get m r c = Some (Fin 5).
Proof.
  intros m.
  assert (Hr : rectangular m) by (repeat constructor).
  split; [exact Hr|].
  apply (maxpool2d_entries_from_input m [Fin 5; Fin 5] (Fin 5) Hr).
  - vm_compute; left; reflexivity.
  - left; reflexivity.
Defined.

(** ** nn.AdaptiveAvgPool2d((1, 1)): bounds *)

Lemma inject_Z_of_nat_S : forall n,
  inject_Z (Z.of_nat (S n)) == 1 + inject_Z (Z.of_nat n).
Proof.
  intros n; rewrite Nat2Z.inj_succ, <- Z.add_1_l, inject_Z_plus; reflexivity.
Qed.

Lemma Qsum_bounds : forall (f : nat -> Q) l a b,
  (forall x, In x l -> a <= f x <= b)%Q ->
  (inject_Z (Z.of_nat (length l)) * a <= Qsum (map f l)
   /\ Qsum (map f l) <= inject_Z (Z.of_nat (length l)) * b)%Q.
Proof.
  intros f l a b Hf; induction l as [|x l IH].
  - change (inject_Z (Z.of_nat (length (@nil nat)))) with 0%Q.
    change (Qsum (map f [])) with 0%Q.
    rewrite !Qmult_0_l; split; apply Qle_refl.
  - change (Qsum (map f (x :: l))) with (Qplus (f x) (Qsum (map f l))).
    change (length (x :: l)) with (S (length l)).
    rewrite inject_Z_of_nat_S, !Qmult_plus_distr_l, !Qmult_1_l.
    destruct (Hf x (or_introl eq_refl)) as [Hx1 Hx2].
    destruct IH as [H1 H2]; [intros y Hy; apply Hf; right; exact Hy|].
    split; apply Qplus_le_compat; assumption.
Qed.

(** X15: self.global_pool averages: on a rectangular H x W channel
    (H, W >= 1) whose entries all lie in [lo, hi], the single output of
    AdaptiveAvgPool2d((1, 1)) lies in [lo, hi] as well. *)
Theorem global_pool_bounds :
  forall (m : qmap) W lo hi,
    1 <= length m -> 1 <= W ->
    Forall (fun row => length row = W) m ->
    Forall (Forall (fun q => lo <= q /\ q <= hi)%Q) m ->
    exists q, adaptive_avg_pool2d 1 1 m = [[q]] /\ (lo <= q /\ q <= hi)%Q.
Proof.
  intros m W lo hi HH HW Hrect Hb.
  unfold adaptive_avg_pool2d; cbv zeta.
  assert (Hhd : length (hd [] m) = W).
  { destruct m as [|row m]; [cbn in HH; lia|].
    inversion Hrect; assumption. }
  rewrite Hhd.
  set (H := length m) in *.
  unfold start_index, end_index; cbn [seq map].
  rewrite !Nat.div_1_r.
  replace ((0 + 1) * H + 1 - 1 - 0 * H) with H by lia.
  replace ((0 + 1) * W + 1 - 1 - 0 * W) with W by lia.
  replace (0 * H) with 0 by lia; replace (0 * W) with 0 by lia.
  eexists; split; [reflexivity|].
  set (S := Qsum (map (fun r => Qsum (map (fun c => qmap_get m r c) (seq 0 W)))
                     (seq 0 H))).
  assert (Hentry : forall r c, In r (seq 0 H) -> In c (seq 0 W) ->
                     (lo <= qmap_get m r c /\ qmap_get m r c <= hi)%Q).
  { intros r c Hr Hc; apply in_seq in Hr; apply in_seq in Hc.
    unfold qmap_get.
    assert (Hrow : In (nth r m []) m) by (apply nth_In; lia).
    rewrite Forall_forall in Hrect, Hb.
    specialize (Hb _ Hrow); rewrite Forall_forall in Hb; apply Hb.
    apply nth_In; rewrite (Hrect _ Hrow); lia. }
  assert (HS : (inject_Z (Z.of_nat H) * (inject_Z (Z.of_nat W) * lo) <= S
                /\ S <= inject_Z (Z.of_nat H) * (inject_Z (Z.of_nat W) * hi))%Q).
  { assert (Hrows : forall r, In r (seq 0 H) ->
              (inject_Z (Z.of_nat W) * lo
               <= Qsum (map (fun c => qmap_get m r c) (seq 0 W))
               <= inject_Z (Z.of_nat W) * hi)%Q).
    { intros r Hr.
      pose proof (Qsum_bounds (fun c => qmap_get m r c) (seq 0 W) lo hi
                    (fun c Hc => Hentry r c Hr Hc)) as Hrow.
      rewrite length_seq in Hrow; exact Hrow. }
    pose proof (Qsum_bounds _ (seq 0 H) _ _ Hrows) as Hall.
    rewrite length_seq in Hall; exact Hall. }
  assert (Hpos : (0 < inject_Z (Z.of_nat (H * W)))%Q).
  { unfold Qlt; cbn [Qnum Qden inject_Z]; rewrite Z.mul_1_r; nia. }
  destruct HS as [HS1 HS2]; split.
  - apply Qle_shift_div_l; [exact Hpos|].
    rewrite Nat2Z.inj_mul, inject_Z_mult.
    setoid_replace (lo * (inject_Z (Z.of_nat H) * inject_Z (Z.of_nat W)))%Q
      with (inject_Z (Z.of_nat H) * (inject_Z (Z.of_nat W) * lo))%Q by ring.
    exact HS1.
  - apply Qle_shift_div_r; [exact Hpos|].
    rewrite Nat2Z.inj_mul, inject_Z_mult.
    setoid_replace (hi * (inject_Z (Z.of_nat H) * inject_Z (Z.of_nat W)))%Q
      with (inject_Z (Z.of_nat H) * (inject_Z (Z.of_nat W) * hi))%Q by ring.
    exact HS2.
Qed.

Lemma global_pool_bounds_witness :
  exists q, adaptive_avg_pool2d 1 1 [[1; 3]; [2; 4]]%Q = [[q]] /\ (1 <= q /\ q <= 4)%Q.
Proof.
  apply (global_pool_bounds [[1; 3]; [2; 4]]%Q 2 1 4); try (cbn; lia).
  - repeat constructor.
  - repeat constructor; unfold Qle; cbn; lia.
Defined.
